(** * Mortgage calculator: formula library, term sweep and adjusted table

    A shallow embedding of [mortage_calculator.py].

    Number model.  The script computes with Python [int] and [float].
    Python integers are embedded as [Z]; a Python float is stood for by the
    real number it approximates, so what is proved of a returned value is
    proved up to the rounding of the very expression the code evaluates.
    What Python does on top of the arithmetic is kept: true division by
    zero raises [ZeroDivisionError]; [math.pow] and the builtin [pow] have
    their domain errors, raise [OverflowError] when the power leaves the
    binary64 range and give 0 when it underflows; an exception raised in a
    callee aborts the caller.  Whether a sum such as [1 + r] rounds back to
    1 is a property of binary64 rounding that this model does not decide:
    no theorem below relies on a divisor being non-zero for that reason
    except at the inputs of the script itself. *)

From Stdlib Require Import Reals Lra Lia ZArith List.
Import ListNotations.

Open Scope R_scope.

(** ** Outcomes of a Python expression *)

Inductive exn : Set :=
| ZeroDivisionError
| ValueError
| OverflowError.

(** [Complex] stands for a value that left the reals: the builtin [pow]
    of a negative base and a non-integral exponent is a Python [complex],
    whose value the real-valued model does not follow. *)
Inductive outcome (A : Type) : Type :=
| Returns (a : A)
| Raises (e : exn)
| Complex.

Arguments Returns {A} a.
Arguments Raises {A} e.
Arguments Complex {A}.

Definition bind {A B : Type} (m : outcome A) (k : A -> outcome B) : outcome B :=
  match m with
  | Returns a => k a
  | Raises e => Raises e
  | Complex => Complex
  end.

Notation "x <- m ;; k" := (bind m (fun x => k))
  (at level 61, m at next level, right associativity).

(** ** Python arithmetic primitives *)

(** [a / b] on floats. *)
Definition py_div (a b : R) : outcome R :=
  if Req_dec_T b 0 then Raises ZeroDivisionError else Returns (a / b).

(** The least magnitude that rounds to infinity in binary64,
    [2^1024 - 2^970], and the largest that rounds to zero, [2^-1075]. *)
Definition overflow_threshold : R := IZR (2 ^ 1024 - 2 ^ 970).

Definition underflow_threshold : R := / IZR (2 ^ 1075).

Definition in_float_range (p : R) : Prop :=
  underflow_threshold < Rabs p < overflow_threshold.

(** What both power functions make of the exact power [p]: a range error
    when it rounds to infinity, 0 when it rounds to zero. *)
Definition float_range (p : R) : outcome R :=
  if Rle_dec overflow_threshold (Rabs p) then Raises OverflowError
  else if Rle_dec (Rabs p) underflow_threshold then Returns 0
  else Returns p.

(** [y == floor(y)], the integrality test both power functions make. *)
Definition is_integral (y : R) : bool :=
  if Req_dec_T y (IZR (Int_part y)) then true else false.

(** [math.pow(x, y)]: 1 for a zero exponent; a zero base with a negative
    exponent and a negative base with a non-integral exponent are domain
    errors ([ValueError]); a result out of range is a range error
    ([OverflowError]). *)
Definition math_pow (x y : R) : outcome R :=
  if Req_dec_T y 0 then Returns 1
  else if Req_dec_T x 0 then
    if Rlt_dec y 0 then Raises ValueError else Returns 0
  else if Rlt_dec 0 x then float_range (Rpower x y)
  else if is_integral y then float_range (powerRZ x (Int_part y))
  else Raises ValueError.

(** The builtin [pow(x, y)] with a float base.  A negative base with a
    non-integral exponent goes to complex exponentiation, of magnitude
    [|x|^y]: it raises [OverflowError] when that overflows and is [0j],
    which divides like 0, when it underflows. *)
Definition builtin_pow (x y : R) : outcome R :=
  if Req_dec_T y 0 then Returns 1
  else if Req_dec_T x 0 then
    if Rlt_dec y 0 then Raises ZeroDivisionError else Returns 0
  else if Rlt_dec 0 x then float_range (Rpower x y)
  else if is_integral y then float_range (powerRZ x (Int_part y))
  else if Rle_dec overflow_threshold (Rpower (- x) y) then Raises OverflowError
  else if Rle_dec (Rpower (- x) y) underflow_threshold then Returns 0
  else Complex.

(** ** Formula library *)

Definition calculate_monthly_payment
    (loan_amount annual_interest_rate years : R) : outcome R :=
  let monthly_interest_rate := annual_interest_rate / 12 in
  let num_payments := 12 * years in
  let numerator := loan_amount * monthly_interest_rate in
  p <- math_pow (1 + monthly_interest_rate) (- num_payments) ;;
  let denominator := 1 - p in
  monthly_payment <- py_div numerator denominator ;;
  Returns monthly_payment.

Definition calculate_total_interest
    (loan_amount monthly_payment years : R) : R :=
  let total_paid := monthly_payment * 12 * years in
  let total_interest := total_paid - loan_amount in
  total_interest.

Definition calculate_opportunity_cost
    (payment_diff years annual_investment_return : R) : outcome R :=
  let monthly_return := annual_investment_return / 12 in
  let months := years * 12 in
  if Rlt_dec 0 monthly_return then
    p <- builtin_pow (1 + monthly_return) months ;;
    q <- py_div (p - 1) monthly_return ;;
    Returns (payment_diff * q)
  else
    Returns (payment_diff * months).

Definition calculate_inflation_adjusted_value
    (value years annual_inflation_rate : R) : outcome R :=
  p <- builtin_pow (1 + annual_inflation_rate) years ;;
  py_div value p.

(** ** Term sweep *)

(** The module-level inputs of the script. *)
Record Config : Type := mkConfig {
  loan_amount : R;
  annual_interest_rate : R;
  investment_return_rate : R;
  annual_inflation_rate : R;
  monthly_salary : R
}.

Definition script_config : Config :=
  {| loan_amount := 2500000;
     annual_interest_rate := 8 / 100;
     investment_return_rate := 4 / 10;
     annual_inflation_rate := 28 / 100;
     monthly_salary := 200000 |}.

(** One dictionary appended to [term_results]. *)
Record TermResult : Type := mkTermResult {
  term : Z;
  monthly_payment : R;
  total_interest : R;
  total_cost : R;
  savings : R;
  investment_value_in_term : R;
  investment_value : R
}.

(** [range(lo, hi)]. *)
Definition range (lo hi : Z) : list Z :=
  map (fun k => (lo + Z.of_nat k)%Z) (seq 0 (Z.to_nat (hi - lo))).

(** The baseline computed before the loop: [total_cost_30]. *)
Definition baseline (c : Config) : outcome R :=
  let years_30 := 30%Z in
  payment_30 <-
    calculate_monthly_payment (loan_amount c) (annual_interest_rate c) (IZR years_30) ;;
  let total_interest_30 :=
    calculate_total_interest (loan_amount c) payment_30 (IZR years_30) in
  let total_cost_30 := loan_amount c + total_interest_30 in
  Returns total_cost_30.

(** The body of [for term in range(1, 31)], up to the appended record. *)
Definition term_body (c : Config) (total_cost_30 : R) (term : Z)
  : outcome TermResult :=
  monthly_payment <-
    calculate_monthly_payment (loan_amount c) (annual_interest_rate c) (IZR term) ;;
  let total_interest :=
    calculate_total_interest (loan_amount c) monthly_payment (IZR term) in
  let total_cost := loan_amount c + total_interest in
  let savings := total_cost_30 - total_cost in
  iv <-
    (if (term <? 30)%Z then
       let payment_diff := monthly_salary c - monthly_payment in
       if Rlt_dec payment_diff 0 then
         let investment_value_in_term := 0 in
         let remaining_years := (30 - term)%Z in
         investment_value <-
           calculate_opportunity_cost
             (monthly_salary c) (IZR remaining_years) (investment_return_rate c) ;;
         Returns (investment_value_in_term, investment_value)
       else
         investment_value_in_term <-
           calculate_opportunity_cost
             payment_diff (IZR term) (investment_return_rate c) ;;
         let investment_value := investment_value_in_term in
         let remaining_years := (30 - term)%Z in
         extra <-
           calculate_opportunity_cost
             (monthly_salary c) (IZR remaining_years) (investment_return_rate c) ;;
         let investment_value := investment_value + extra in
         Returns (investment_value_in_term, investment_value)
     else
       let investment_value := 0 in
       let investment_value_in_term := 0 in
       Returns (investment_value_in_term, investment_value)) ;;
  Returns {| term := term;
             monthly_payment := monthly_payment;
             total_interest := total_interest;
             total_cost := total_cost;
             savings := savings;
             investment_value_in_term := fst iv;
             investment_value := snd iv |}.

(** [emitted c total_cost_30 t r]: the pass of the body for term [t] ran
    to its end and appended the record [r]. *)
Definition emitted (c : Config) (total_cost_30 : R) (t : Z) (r : TermResult) : Prop :=
  term_body c total_cost_30 t = Returns r.

(** The loop itself: each record is appended to [term_results]; an
    exception in the body ends the script. *)
Fixpoint sweep_loop (c : Config) (total_cost_30 : R) (terms : list Z)
    (term_results : list TermResult) : outcome (list TermResult) :=
  match terms with
  | [] => Returns term_results
  | term :: rest =>
      r <- term_body c total_cost_30 term ;;
      sweep_loop c total_cost_30 rest (term_results ++ [r])
  end.

Definition term_sweep (c : Config) : outcome (list TermResult) :=
  total_cost_30 <- baseline c ;;
  let term_results := [] in
  sweep_loop c total_cost_30 (range 1 31) term_results.

(** ** Inflation-adjusted table *)

(** A value handed to the format string of a row: a float, or a complex
    number whose value is not followed. *)
Inductive number : Type :=
| Real (x : R)
| NonReal.

(** [a + b] where [b] may be complex. *)
Definition number_add (a : R) (b : number) : number :=
  match b with
  | Real x => Real (a + x)
  | NonReal => NonReal
  end.

(** The result of a call kept as a value: a complex result is a value
    like any other, only an exception ends the script. *)
Definition as_number (m : outcome R) : outcome number :=
  match m with
  | Returns x => Returns (Real x)
  | Raises e => Raises e
  | Complex => Returns NonReal
  end.

(** The values of one row of the inflation-adjusted table, in the order
    they are handed to the row's format string. *)
Record AdjustedRow : Type := mkAdjustedRow {
  row_term : Z;
  row_monthly_payment : R;
  inflation_adj_total_interest : number;
  inflation_adj_total_cost : number;
  inflation_adj_savings : number;
  inflation_adj_investment_IT : number;
  inflation_adj_investment : number
}.

(** The body of the second [for result in term_results], up to the values
    it prints. *)
Definition adjust_body (c : Config) (result : TermResult) : outcome AdjustedRow :=
  let term := term result in
  midpoint_years <- py_div (IZR term) 2 ;;
  inflation_adj_total_interest <-
    as_number
      (calculate_inflation_adjusted_value
         (total_interest result) midpoint_years (annual_inflation_rate c)) ;;
  let inflation_adj_total_cost :=
    number_add (loan_amount c) inflation_adj_total_interest in
  inflation_adj_savings <-
    as_number
      (calculate_inflation_adjusted_value
         (savings result) 30 (annual_inflation_rate c)) ;;
  inflation_adj_investment_IT <-
    as_number
      (calculate_inflation_adjusted_value
         (investment_value_in_term result) 30 (annual_inflation_rate c)) ;;
  inflation_adj_investment <-
    as_number
      (calculate_inflation_adjusted_value
         (investment_value result) 30 (annual_inflation_rate c)) ;;
  Returns {| row_term := term;
             row_monthly_payment := monthly_payment result;
             inflation_adj_total_interest := inflation_adj_total_interest;
             inflation_adj_total_cost := inflation_adj_total_cost;
             inflation_adj_savings := inflation_adj_savings;
             inflation_adj_investment_IT := inflation_adj_investment_IT;
             inflation_adj_investment := inflation_adj_investment |}.

(** The second loop: [printed] holds the rows written so far; an exception
    in the body ends the script after them. *)
Fixpoint adjust_loop (c : Config) (term_results : list TermResult)
    (printed : list AdjustedRow) : outcome (list AdjustedRow) :=
  match term_results with
  | [] => Returns printed
  | result :: rest =>
      row <- adjust_body c result ;;
      adjust_loop c rest (printed ++ [row])
  end.

(** The script from its inputs to the rows of the inflation-adjusted
    table. *)
Definition inflation_adjusted_table (c : Config) : outcome (list AdjustedRow) :=
  term_results <- term_sweep c ;;
  adjust_loop c term_results [].

(** * Properties *)

(** ** The primitives *)

Section Primitives.

Lemma Returns_inj {A : Type} (a b : A) : Returns a = Returns b -> a = b.
Proof. congruence. Qed.

Lemma py_div_returns (a b : R) : b <> 0 -> py_div a b = Returns (a / b).
Proof.
  intros Hb. unfold py_div. destruct (Req_dec_T b 0); [contradiction | reflexivity].
Qed.

Lemma py_div_zero (a : R) : py_div a 0 = Raises ZeroDivisionError.
Proof.
  unfold py_div. destruct (Req_dec_T 0 0) as [_ | H]; [reflexivity | now elim H].
Qed.

Lemma overflow_threshold_large : IZR (3 ^ 12) < overflow_threshold.
Proof. unfold overflow_threshold. apply IZR_lt. reflexivity. Qed.

Lemma underflow_threshold_small : underflow_threshold < / IZR (3 ^ 12).
Proof.
  unfold underflow_threshold.
  assert (0 < IZR (3 ^ 12)) by (apply IZR_lt; reflexivity).
  assert (0 < IZR (2 ^ 1075)) by (apply IZR_lt; reflexivity).
  apply Rinv_lt_contravar; [now apply Rmult_lt_0_compat |].
  apply IZR_lt. reflexivity.
Qed.

Lemma underflow_threshold_pos : 0 < underflow_threshold.
Proof.
  unfold underflow_threshold. apply Rinv_0_lt_compat. apply IZR_lt. reflexivity.
Qed.

Lemma float_range_id (p : R) : in_float_range p -> float_range p = Returns p.
Proof.
  intros [Hlo Hhi]. unfold float_range.
  destruct (Rle_dec overflow_threshold (Rabs p)); [lra |].
  destruct (Rle_dec (Rabs p) underflow_threshold); [lra | reflexivity].
Qed.

(** Magnitudes between [3^-12] and [3^12] are well inside the range. *)
Lemma moderate_in_float_range (p : R) :
  / IZR (3 ^ 12) <= p <= IZR (3 ^ 12) -> in_float_range p.
Proof.
  intros [Hlo Hhi].
  pose proof overflow_threshold_large. pose proof underflow_threshold_small.
  pose proof underflow_threshold_pos.
  unfold in_float_range. rewrite Rabs_pos_eq by lra. lra.
Qed.

Lemma float_range_one : float_range 1 = Returns 1.
Proof.
  apply float_range_id, moderate_in_float_range.
  assert (H : 1 <= IZR (3 ^ 12)) by (apply IZR_le; discriminate).
  split; [| assumption].
  rewrite <- Rinv_1. apply Rinv_le_contravar; lra.
Qed.


Lemma Rpower_pos (x y : R) : 0 < Rpower x y.
Proof. unfold Rpower. apply exp_pos. Qed.

Lemma math_pow_pos (x y : R) :
  0 < x -> in_float_range (Rpower x y) -> math_pow x y = Returns (Rpower x y).
Proof.
  intros Hx Hr. unfold math_pow.
  destruct (Req_dec_T y 0) as [-> | _].
  - now rewrite Rpower_O.
  - destruct (Req_dec_T x 0); [lra |].
    destruct (Rlt_dec 0 x); [now apply float_range_id | contradiction].
Qed.

Lemma builtin_pow_pos (x y : R) :
  0 < x -> in_float_range (Rpower x y) -> builtin_pow x y = Returns (Rpower x y).
Proof.
  intros Hx Hr. unfold builtin_pow.
  destruct (Req_dec_T y 0) as [-> | _].
  - now rewrite Rpower_O.
  - destruct (Req_dec_T x 0); [lra |].
    destruct (Rlt_dec 0 x); [now apply float_range_id | contradiction].
Qed.



Lemma Int_part_IZR (n : Z) : Int_part (IZR n) = n.
Proof. symmetry. apply Int_part_spec. lra. Qed.

Lemma is_integral_IZR (n : Z) : is_integral (IZR n) = true.
Proof.
  unfold is_integral. rewrite Int_part_IZR.
  destruct (Req_dec_T (IZR n) (IZR n)) as [_ | H]; [reflexivity | now elim H].
Qed.


Lemma Rpower_ge_1 (x y : R) : 1 <= x -> 0 <= y -> 1 <= Rpower x y.
Proof.
  intros Hx Hy.
  assert (H : Rpower x 0 <= Rpower x y) by (apply Rle_Rpower; lra).
  now rewrite Rpower_O in H by lra.
Qed.

Lemma exp_le (a b : R) : a <= b -> exp a <= exp b.
Proof.
  intros [H | ->]; [left; now apply exp_increasing | right; reflexivity].
Qed.

Lemma exp_INR (k : nat) : exp (INR k) = exp 1 ^ k.
Proof.
  induction k as [| k IH]; [cbn; apply exp_0 |].
  rewrite S_INR, exp_plus, IH. cbn. ring.
Qed.

Lemma ln_le_minus_1 (x : R) : 0 < x -> ln x <= x - 1.
Proof.
  intros Hx. rewrite <- (ln_exp (x - 1)).
  destruct (Rle_lt_or_eq_dec x (exp (x - 1))) as [H | H].
  - pose proof (exp_ineq1_le (x - 1)). lra.
  - left. now apply ln_increasing.
  - right. now rewrite <- H.
Qed.

(** For a base of at least 1 and a non-negative exponent with
    [y (x - 1) <= 12] the power lies between 1 and [3^12]. *)
Lemma Rpower_moderate (x y : R) :
  1 <= x -> 0 <= y -> y * (x - 1) <= 12 -> 1 <= Rpower x y <= IZR (3 ^ 12).
Proof.
  intros Hx Hy Hxy. split; [now apply Rpower_ge_1 |].
  unfold Rpower.
  apply Rle_trans with (exp (INR 12)).
  - apply exp_le. pose proof (ln_le_minus_1 x ltac:(lra)).
    replace (INR 12) with 12 by (cbn; lra). nra.
  - replace (IZR (3 ^ 12)) with (3 ^ 12) by (rewrite pow_IZR; reflexivity).
    rewrite exp_INR. apply pow_incr. split; [left; apply exp_pos | apply exp_le_3].
Qed.

Lemma Rpower_moderate_in_range (x y : R) :
  1 <= x -> 0 <= y -> y * (x - 1) <= 12 -> in_float_range (Rpower x y).
Proof.
  intros Hx Hy Hxy. apply moderate_in_float_range.
  destruct (Rpower_moderate x y Hx Hy Hxy) as [Hlo Hhi].
  split; [| assumption].
  assert (H : / IZR (3 ^ 12) <= / 1).
  { apply Rinv_le_contravar; [lra |]. apply IZR_le. discriminate. }
  rewrite Rinv_1 in H. lra.
Qed.

Lemma Rpower_neg_moderate_in_range (x y : R) :
  1 <= x -> 0 <= y -> y * (x - 1) <= 12 -> in_float_range (Rpower x (- y)).
Proof.
  intros Hx Hy Hxy. apply moderate_in_float_range.
  destruct (Rpower_moderate x y Hx Hy Hxy) as [Hlo Hhi].
  rewrite Rpower_Ropp. split.
  - apply Rinv_le_contravar; [lra | assumption].
  - assert (H : / Rpower x y <= / 1) by (apply Rinv_le_contravar; lra).
    rewrite Rinv_1 in H.
    assert (1 <= IZR (3 ^ 12)) by (apply IZR_le; discriminate). lra.
Qed.

Lemma Rpower_neg_lt_1 (x y : R) : 1 < x -> 0 < y -> Rpower x (- y) < 1.
Proof.
  intros Hx Hy.
  assert (H : Rpower x (- y) < Rpower x 0) by (apply Rpower_lt; lra).
  now rewrite Rpower_O in H by lra.
Qed.

End Primitives.

(** ** Formula library *)

Section Formulas.

Lemma three_pow_12 : IZR (3 ^ 12) = 531441.
Proof. reflexivity. Qed.

Lemma calculate_opportunity_cost_growth (p years rate : R) :
  0 < rate / 12 -> in_float_range (Rpower (1 + rate / 12) (years * 12)) ->
  calculate_opportunity_cost p years rate =
  Returns (p * ((Rpower (1 + rate / 12) (years * 12) - 1) / (rate / 12))).
Proof.
  intros Hm Hr. unfold calculate_opportunity_cost.
  destruct (Rlt_dec 0 (rate / 12)); [| contradiction].
  rewrite builtin_pow_pos by (lra || assumption). cbn [bind].
  rewrite py_div_returns by lra. reflexivity.
Qed.

Lemma calculate_opportunity_cost_linear (p years rate : R) :
  rate / 12 <= 0 ->
  calculate_opportunity_cost p years rate = Returns (p * (years * 12)).
Proof.
  intros Hm. unfold calculate_opportunity_cost.
  destruct (Rlt_dec 0 (rate / 12)); [lra | reflexivity].
Qed.

(** A returned future value of a non-negative contribution over a
    non-negative number of years is non-negative. *)
Lemma calculate_opportunity_cost_nonneg (p years rate v : R) :
  0 <= p -> 0 <= years ->
  calculate_opportunity_cost p years rate = Returns v -> 0 <= v.
Proof.
  intros Hp Hy. unfold calculate_opportunity_cost.
  destruct (Rlt_dec 0 (rate / 12)) as [Hm | Hm].
  - unfold builtin_pow.
    destruct (Req_dec_T (years * 12) 0) as [E | NE]; cbn [bind].
    + rewrite py_div_returns by lra. cbn [bind]. intros H.
      apply Returns_inj in H. subst v. unfold Rdiv. nra.
    + destruct (Req_dec_T (1 + rate / 12) 0); [lra |].
      destruct (Rlt_dec 0 (1 + rate / 12)); [| lra].
      pose proof (Rpower_ge_1 (1 + rate / 12) (years * 12) ltac:(lra) ltac:(lra)) as Hge.
      assert (Hu : underflow_threshold < 1).
      { pose proof underflow_threshold_small as Hs. pose proof three_pow_12 as E3.
        assert (Hi : / IZR (3 ^ 12) <= / 1)
          by (apply Rinv_le_contravar; [lra | rewrite E3; lra]).
        rewrite Rinv_1 in Hi. lra. }
      unfold float_range. rewrite Rabs_pos_eq by lra.
      destruct (Rle_dec overflow_threshold _); cbn [bind]; [discriminate |].
      destruct (Rle_dec _ underflow_threshold); [lra |]. cbn [bind].
      rewrite py_div_returns by lra. cbn [bind]. intros H.
      apply Returns_inj in H. subst v.
      apply Rmult_le_pos; [assumption |].
      apply Rmult_le_pos; [lra |]. left. now apply Rinv_0_lt_compat.
  - intros H. apply Returns_inj in H. subst v. apply Rmult_le_pos; lra.
Qed.

Lemma calculate_inflation_adjusted_value_pos (v years rate : R) :
  0 < 1 + rate -> in_float_range (Rpower (1 + rate) years) ->
  calculate_inflation_adjusted_value v years rate =
  Returns (v / Rpower (1 + rate) years).
Proof.
  intros Hb Hr. unfold calculate_inflation_adjusted_value.
  rewrite builtin_pow_pos by assumption. cbn [bind].
  apply py_div_returns. pose proof (Rpower_pos (1 + rate) years). lra.
Qed.



End Formulas.




(** C5 (as the code behaves): at a zero annual rate
    [calculate_monthly_payment] has no branch of its own; the denominator
    [1 - (1+0)^(-n)] is zero and the division raises, for every principal
    and term, instead of returning [principal / n]. *)
Theorem calculate_monthly_payment_zero_rate (principal years : R) :
  calculate_monthly_payment principal 0 years = Raises ZeroDivisionError.
Proof.
  unfold calculate_monthly_payment.
  replace (1 + 0 / 12) with 1 by lra.
  assert (E : forall y, Rpower 1 y = 1).
  { intros y. unfold Rpower. now rewrite ln_1, Rmult_0_r, exp_0. }
  rewrite math_pow_pos; [| lra |].
  - cbn [bind]. rewrite E. replace (1 - 1) with 0 by lra.
    now rewrite py_div_zero.
  - rewrite E.
    pose proof float_range_one as H1. unfold float_range in H1.
    unfold in_float_range.
    destruct (Rle_dec overflow_threshold (Rabs 1)); [discriminate |].
    destruct (Rle_dec (Rabs 1) underflow_threshold) as [L | NL]; [| lra].
    apply Returns_inj in H1. lra.
Qed.

(** C7: [calculate_total_interest] returns [payment * 12 * years - principal]
    on every input; it is a total function that checks nothing, so a
    non-positive term or a negative payment goes through the same formula. *)
Theorem calculate_total_interest_formula (principal payment years : R) :
  calculate_total_interest principal payment years =
  payment * 12 * years - principal
  /\ calculate_total_interest principal payment 0 = - principal
  /\ calculate_total_interest principal payment (- years) =
     - (payment * 12 * years) - principal.
Proof.
  unfold calculate_total_interest. repeat split; ring.
Qed.




(** C10: for every strictly negative annual return rate the guard
    [monthly_return > 0] fails, so [calculate_opportunity_cost] takes the
    linear branch and returns [periodicAmount * years * 12]. *)
Theorem calculate_opportunity_cost_negative_rate (periodicAmount years annualReturnRate : R) :
  annualReturnRate < 0 ->
  calculate_opportunity_cost periodicAmount years annualReturnRate =
  Returns (periodicAmount * years * 12).
Proof.
  intros Hr. rewrite calculate_opportunity_cost_linear by lra. f_equal. ring.
Qed.

Lemma calculate_opportunity_cost_negative_rate_witness :
  calculate_opportunity_cost 1000 15 (-1) = Returns (1000 * 15 * 12).
Proof. apply (calculate_opportunity_cost_negative_rate 1000 15 (-1)). lra. Defined.

(** X4: a term of zero years is not rejected: [(1+r)^0] is 1, the
    denominator is 0 and the division raises [ZeroDivisionError], for
    every principal and rate. *)
Theorem calculate_monthly_payment_zero_years (L rate : R) :
  calculate_monthly_payment L rate 0 = Raises ZeroDivisionError.
Proof.
  unfold calculate_monthly_payment, math_pow.
  destruct (Req_dec_T (- (12 * 0)) 0) as [_ | NE]; [| exfalso; lra].
  cbn [bind]. replace (1 - 1) with 0 by lra. now rewrite py_div_zero.
Qed.

(** X5: at an annual rate of -12 (a monthly rate of -1) the base of the
    power is 0 and, the exponent being negative for a positive term,
    [math.pow] raises [ValueError]. *)
Theorem calculate_monthly_payment_rate_minus_12 (L years : R) :
  0 < years ->
  calculate_monthly_payment L (-12) years = Raises ValueError.
Proof.
  intros Hy. unfold calculate_monthly_payment, math_pow.
  destruct (Req_dec_T (- (12 * years)) 0) as [E | _]; [exfalso; lra |].
  destruct (Req_dec_T (1 + -12 / 12) 0) as [_ | NE]; [| exfalso; lra].
  destruct (Rlt_dec (- (12 * years)) 0) as [_ | NL]; [reflexivity | exfalso; lra].
Qed.

Lemma calculate_monthly_payment_rate_minus_12_witness :
  calculate_monthly_payment 2500000 (-12) 30 = Raises ValueError.
Proof. apply (calculate_monthly_payment_rate_minus_12 2500000 30). lra. Defined.


(** X11: at an inflation rate of -1 the base of the power is 0: for every
    non-zero number of years the function raises [ZeroDivisionError]
    (from [pow] when the years are negative, from the division
    otherwise). *)
Theorem discounting_at_minus_100_percent (v years : R) :
  years <> 0 ->
  calculate_inflation_adjusted_value v years (-1) = Raises ZeroDivisionError.
Proof.
  intros Hy. unfold calculate_inflation_adjusted_value, builtin_pow.
  destruct (Req_dec_T years 0) as [E | _]; [contradiction |].
  destruct (Req_dec_T (1 + -1) 0) as [_ | NE]; [| exfalso; lra].
  destruct (Rlt_dec years 0); cbn [bind]; [reflexivity | apply py_div_zero].
Qed.

Lemma discounting_at_minus_100_percent_witness :
  calculate_inflation_adjusted_value 1000 (1 / 2) (-1) = Raises ZeroDivisionError.
Proof. apply (discounting_at_minus_100_percent 1000 (1 / 2)). lra. Defined.

(** ** The loop and what it appends *)

Section Sweep.

Variable c : Config.

Lemma sweep_loop_returns (tc : R) (terms : list Z) :
  forall acc rs,
    sweep_loop c tc terms acc = Returns rs ->
    exists rs', rs = acc ++ rs' /\ Forall2 (emitted c tc) terms rs'.
Proof.
  induction terms as [| t rest IH]; intros acc rs H; cbn in H.
  - injection H as <-. exists []. now rewrite app_nil_r.
  - destruct (term_body c tc t) as [r | e |] eqn:Hb; cbn in H; try discriminate.
    destruct (IH _ _ H) as (rs' & -> & HF).
    exists (r :: rs'). split.
    + now rewrite <- app_assoc.
    + now constructor.
Qed.

Lemma sweep_loop_complete (tc : R) (terms : list Z) :
  forall acc rs',
    Forall2 (emitted c tc) terms rs' ->
    sweep_loop c tc terms acc = Returns (acc ++ rs').
Proof.
  induction terms as [| t rest IH]; intros acc rs' HF; inversion HF; subst; cbn.
  - now rewrite app_nil_r.
  - match goal with H : emitted _ _ _ _ |- _ => unfold emitted in H; rewrite H end.
    cbn. rewrite IH with (rs' := l') by assumption.
    now rewrite <- app_assoc.
Qed.

Lemma term_sweep_returns (rs : list TermResult) :
  term_sweep c = Returns rs ->
  exists tc, baseline c = Returns tc /\ Forall2 (emitted c tc) (range 1 31) rs.
Proof.
  unfold term_sweep. intros H.
  destruct (baseline c) as [tc | e |]; cbn in H; try discriminate.
  destruct (sweep_loop_returns _ _ _ _ H) as (rs' & -> & HF).
  now exists tc.
Qed.

Lemma baseline_returns (tc : R) :
  baseline c = Returns tc ->
  exists payment_30,
    calculate_monthly_payment (loan_amount c) (annual_interest_rate c) 30 =
    Returns payment_30 /\
    tc = loan_amount c + calculate_total_interest (loan_amount c) payment_30 30.
Proof.
  unfold baseline. intros H.
  destruct (calculate_monthly_payment _ _ _) as [p | e |]; cbn in H; try discriminate.
  injection H as <-. now exists p.
Qed.

(** The fields of an appended record, read off the body. *)
Lemma term_body_returns (tc : R) (t : Z) (r : TermResult) :
  emitted c tc t r ->
  term r = t /\
  calculate_monthly_payment (loan_amount c) (annual_interest_rate c) (IZR t) =
  Returns (monthly_payment r) /\
  total_interest r =
  calculate_total_interest (loan_amount c) (monthly_payment r) (IZR t) /\
  total_cost r = loan_amount c + total_interest r /\
  savings r = tc - total_cost r /\
  ((30 <= t)%Z -> investment_value_in_term r = 0 /\ investment_value r = 0) /\
  ((t < 30)%Z -> monthly_salary c - monthly_payment r < 0 ->
   investment_value_in_term r = 0 /\
   calculate_opportunity_cost
     (monthly_salary c) (IZR (30 - t)) (investment_return_rate c) =
   Returns (investment_value r)) /\
  ((t < 30)%Z -> monthly_salary c - monthly_payment r >= 0 ->
   calculate_opportunity_cost
     (monthly_salary c - monthly_payment r) (IZR t) (investment_return_rate c) =
   Returns (investment_value_in_term r) /\
   exists rest,
     calculate_opportunity_cost
       (monthly_salary c) (IZR (30 - t)) (investment_return_rate c) =
     Returns rest /\
     investment_value r = investment_value_in_term r + rest).
Proof.
  unfold emitted, term_body. intros H.
  destruct (calculate_monthly_payment _ _ _) as [p | e |]; cbn [bind] in H;
    try discriminate.
  destruct (Z.ltb_spec t 30) as [Hlt | Hge].
  - destruct (Rlt_dec (monthly_salary c - p) 0) as [Hneg | Hpos].
    + destruct (calculate_opportunity_cost (monthly_salary c) _ _) as [v | e |];
        cbn [bind] in H; try discriminate.
      injection H as <-. cbn.
      repeat split; try reflexivity; try lia; intros; lra.
    + destruct (calculate_opportunity_cost (monthly_salary c - p) _ _) as [v | e |] eqn:Ev;
        cbn [bind] in H; try discriminate.
      destruct (calculate_opportunity_cost (monthly_salary c) _ _) as [w | e |];
        cbn [bind] in H; try discriminate.
      injection H as <-. cbn.
      repeat split; try reflexivity; try lia; try (intros; lra).
      * exact Ev.
      * now exists w.
  - cbn [bind] in H. injection H as <-. cbn.
    repeat split; try reflexivity; intros; lia.
Qed.

Lemma range_1_31 :
  range 1 31 =
  [1; 2; 3; 4; 5; 6; 7; 8; 9; 10; 11; 12; 13; 14; 15; 16; 17; 18; 19; 20;
   21; 22; 23; 24; 25; 26; 27; 28; 29; 30]%Z.
Proof. reflexivity. Qed.

Lemma nth_error_range (lo hi : Z) (i : nat) :
  (Z.of_nat i < hi - lo)%Z ->
  nth_error (range lo hi) i = Some (lo + Z.of_nat i)%Z.
Proof.
  intros Hi. unfold range.
  rewrite nth_error_map, nth_error_seq.
  destruct (Nat.ltb_spec i (Z.to_nat (hi - lo))); [reflexivity | lia].
Qed.

Lemma Forall2_nth_error {A B : Type} (P : A -> B -> Prop) (l : list A) (l' : list B) :
  Forall2 P l l' ->
  forall i a, nth_error l i = Some a ->
  exists b, nth_error l' i = Some b /\ P a b.
Proof.
  induction 1 as [| x y l l' Hxy _ IH]; intros [| i] a Hi; cbn in *; try discriminate.
  - injection Hi as <-. now exists y.
  - now apply IH.
Qed.

(** The record at index [i] is the one the body emitted for term [i+1]. *)
Lemma term_sweep_nth (rs : list TermResult) :
  term_sweep c = Returns rs ->
  exists tc,
    baseline c = Returns tc /\
    length rs = 30%nat /\
    forall i, (i < 30)%nat ->
      exists r, nth_error rs i = Some r /\ emitted c tc (Z.of_nat i + 1) r.
Proof.
  intros H. destruct (term_sweep_returns rs H) as (tc & Hb & HF).
  exists tc. split; [assumption |]. split.
  - apply Forall2_length in HF. now rewrite <- HF.
  - intros i Hi.
    destruct (Forall2_nth_error _ _ _ HF i (1 + Z.of_nat i)%Z) as (r & Hn & Hr).
    + apply nth_error_range. lia.
    + exists r. split; [assumption |].
      now replace (Z.of_nat i + 1)%Z with (1 + Z.of_nat i)%Z by lia.
Qed.

End Sweep.

Lemma Forall2_emitted_terms (c : Config) (tc : R) (ts : list Z) (rs : list TermResult) :
  Forall2 (emitted c tc) ts rs -> map term rs = ts.
Proof.
  induction 1 as [| t r ts rs Hr _ IH]; cbn; [reflexivity |].
  apply term_body_returns in Hr. destruct Hr as [-> _]. now rewrite IH.
Qed.

(** A record of the result list sits at an index below 30 and was emitted
    for the term one above its index. *)
Lemma term_sweep_In (c : Config) (rs : list TermResult) (r : TermResult) :
  term_sweep c = Returns rs -> In r rs ->
  exists tc i,
    baseline c = Returns tc /\ (i < 30)%nat /\
    nth_error rs i = Some r /\ emitted c tc (Z.of_nat i + 1) r.
Proof.
  intros H Hin.
  destruct (term_sweep_nth c rs H) as (tc & Hb & Hlen & Hnth).
  destruct (In_nth_error _ _ Hin) as [i Hi].
  assert (Hlt : (i < 30)%nat).
  { rewrite <- Hlen. apply nth_error_Some. congruence. }
  destruct (Hnth i Hlt) as (r' & Hr' & He).
  exists tc, i. repeat split; try assumption. congruence.
Qed.

(** ** The script's own inputs *)

Section Script.

Lemma script_payment_returns (t : Z) :
  (1 <= t <= 30)%Z ->
  exists p,
    calculate_monthly_payment 2500000 (8 / 100) (IZR t) = Returns p.
Proof.
  intros Ht.
  assert (H1 : 1 <= IZR t) by (apply IZR_le; lia).
  assert (H30 : IZR t <= 30) by (apply IZR_le; lia).
  unfold calculate_monthly_payment.
  rewrite math_pow_pos;
    [| lra | apply Rpower_neg_moderate_in_range; lra].
  cbn [bind].
  pose proof (Rpower_neg_lt_1 (1 + 8 / 100 / 12) (12 * IZR t) ltac:(lra) ltac:(lra)).
  rewrite py_div_returns by lra. cbn [bind]. eexists. reflexivity.
Qed.

Lemma script_future_value_returns (p : R) (t : Z) :
  (0 <= t <= 30)%Z ->
  exists v, calculate_opportunity_cost p (IZR t) (4 / 10) = Returns v.
Proof.
  intros Ht.
  assert (H0 : 0 <= IZR t) by (apply IZR_le; lia).
  assert (H30 : IZR t <= 30) by (apply IZR_le; lia).
  eexists. apply calculate_opportunity_cost_growth; [lra |].
  apply Rpower_moderate_in_range; lra.
Qed.

Lemma script_term_body_returns (tc : R) (t : Z) :
  (1 <= t <= 30)%Z -> exists r, emitted script_config tc t r.
Proof.
  intros Ht. unfold emitted, term_body.
  cbn [loan_amount annual_interest_rate investment_return_rate monthly_salary
       script_config].
  destruct (script_payment_returns t Ht) as [p ->]. cbn [bind].
  destruct (Z.ltb_spec t 30) as [Hlt | Hge].
  - destruct (Rlt_dec (200000 - p) 0).
    + destruct (script_future_value_returns 200000 (30 - t) ltac:(lia)) as [v ->].
      cbn [bind]. eexists. reflexivity.
    + destruct (script_future_value_returns (200000 - p) t ltac:(lia)) as [v ->].
      destruct (script_future_value_returns 200000 (30 - t) ltac:(lia)) as [w ->].
      cbn [bind]. eexists. reflexivity.
  - cbn [bind]. eexists. reflexivity.
Qed.

(** With the inputs written in the script the sweep runs to its end. *)
Lemma script_sweep_returns : exists rs, term_sweep script_config = Returns rs.
Proof.
  unfold term_sweep, baseline.
  cbn [loan_amount annual_interest_rate script_config].
  destruct (script_payment_returns 30 ltac:(lia)) as [p30 ->]. cbn [bind].
  match goal with |- context [sweep_loop _ ?tc _ _] =>
    assert (HF : exists rs, Forall2 (emitted script_config tc) (range 1 31) rs) end.
  { assert (Hall : Forall (fun t => (1 <= t <= 30)%Z) (range 1 31))
      by (rewrite range_1_31; repeat constructor; lia).
    induction Hall as [| t rest Ht _ [rs IH]].
    - exists []. constructor.
    - destruct (script_term_body_returns
                  (2500000 + calculate_total_interest 2500000 p30 30) t Ht)
        as [r Hr].
      exists (r :: rs). now constructor. }
  destruct HF as [rs HF].
  exists rs. now rewrite (sweep_loop_complete _ _ _ [] rs HF).
Qed.

End Script.

(** C9: whenever the sweep runs to its end it has yielded exactly 30
    records, one per term of 1..30 in increasing order, the record at
    index [i] carrying term [i+1]. *)
Theorem term_sweep_one_record_per_term (c : Config) (rs : list TermResult) :
  term_sweep c = Returns rs ->
  length rs = 30%nat /\
  map term rs = range 1 31 /\
  forall i, (i < 30)%nat ->
    exists r, nth_error rs i = Some r /\ term r = (Z.of_nat i + 1)%Z.
Proof.
  intros H. repeat split.
  - destruct (term_sweep_nth c rs H) as (tc & _ & Hlen & _). exact Hlen.
  - destruct (term_sweep_returns c rs H) as (tc & _ & HF).
    now apply Forall2_emitted_terms with (c := c) (tc := tc).
  - intros i Hi.
    destruct (term_sweep_nth c rs H) as (tc & _ & _ & Hnth).
    destruct (Hnth i Hi) as (r & Hr & He).
    exists r. split; [assumption |]. now apply term_body_returns in He.
Qed.

Lemma term_sweep_one_record_per_term_witness :
  exists rs,
    term_sweep script_config = Returns rs /\
    length rs = 30%nat /\
    map term rs = range 1 31.
Proof.
  destruct script_sweep_returns as [rs H].
  exists rs. split; [exact H |].
  destruct (term_sweep_one_record_per_term script_config rs H) as (Hl & Hm & _).
  now split.
Defined.

(** C4: in the record emitted for term 30 the savings against the baseline,
    the investment value during the term and the total investment value
    are all exactly 0, for every configuration whose sweep runs to its
    end; the record is the last one. *)
Theorem term_30_record_is_zero (c : Config) (rs : list TermResult) :
  term_sweep c = Returns rs ->
  (exists r, nth_error rs 29 = Some r /\ term r = 30%Z) /\
  forall r, In r rs -> term r = 30%Z ->
    savings r = 0 /\ investment_value_in_term r = 0 /\ investment_value r = 0.
Proof.
  intros H. split.
  - destruct (term_sweep_nth c rs H) as (tc & _ & _ & Hnth).
    destruct (Hnth 29%nat ltac:(lia)) as (r & Hr & He).
    exists r. split; [assumption |]. now apply term_body_returns in He.
  - intros r Hin Ht.
    destruct (term_sweep_In c rs r H Hin) as (tc & i & Hb & Hi & _ & He).
    apply term_body_returns in He.
    destruct He as (Hterm & Hpay & Hint & Hcost & Hsav & Hlast & _).
    rewrite Ht in Hterm. rewrite <- Hterm in Hpay, Hint, Hlast.
    destruct (baseline_returns c tc Hb) as (p30 & Hp30 & Htc).
    rewrite Hp30 in Hpay. injection Hpay as Hpay.
    destruct (Hlast ltac:(lia)) as [Hin0 Hiv0].
    repeat split; try assumption.
    rewrite Hsav, Hcost, Hint, Htc, <- Hpay. ring.
Qed.

Lemma term_30_record_is_zero_witness :
  exists rs,
    term_sweep script_config = Returns rs /\
    exists r, nth_error rs 29 = Some r /\ term r = 30%Z.
Proof.
  destruct script_sweep_returns as [rs H].
  exists rs. split; [exact H |].
  exact (proj1 (term_30_record_is_zero script_config rs H)).
Defined.

(** C3: for every term of 1..29, with [diff] the reference salary minus
    that term's payment: if [diff < 0] the record has 0 as its value during
    the term and the future value of the salary over the [30 - term]
    remaining years as its total; otherwise it has the future value of
    [diff] over the term as its value during the term, and that plus the
    future value of the salary over the remaining years as its total. *)
Theorem investment_values_by_surplus (c : Config) (rs : list TermResult) (t : Z) :
  term_sweep c = Returns rs -> (1 <= t <= 29)%Z ->
  exists r,
    nth_error rs (Z.to_nat (t - 1)) = Some r /\ term r = t /\
    calculate_monthly_payment (loan_amount c) (annual_interest_rate c) (IZR t) =
    Returns (monthly_payment r) /\
    let diff := monthly_salary c - monthly_payment r in
    (diff < 0 ->
     investment_value_in_term r = 0 /\
     calculate_opportunity_cost
       (monthly_salary c) (IZR (30 - t)) (investment_return_rate c) =
     Returns (investment_value r)) /\
    (diff >= 0 ->
     calculate_opportunity_cost diff (IZR t) (investment_return_rate c) =
     Returns (investment_value_in_term r) /\
     exists rest,
       calculate_opportunity_cost
         (monthly_salary c) (IZR (30 - t)) (investment_return_rate c) =
       Returns rest /\
       investment_value r = investment_value_in_term r + rest).
Proof.
  intros H Ht.
  destruct (term_sweep_nth c rs H) as (tc & _ & _ & Hnth).
  destruct (Hnth (Z.to_nat (t - 1)) ltac:(lia)) as (r & Hr & He).
  replace (Z.of_nat (Z.to_nat (t - 1)) + 1)%Z with t in He by lia.
  apply term_body_returns in He.
  destruct He as (Hterm & Hpay & _ & _ & _ & _ & Hneg & Hpos).
  exists r. repeat split; try assumption.
  - now apply Hneg; [lia |].
  - now apply Hneg; [lia |].
  - now apply Hpos; [lia |].
  - now apply Hpos; [lia |].
Qed.

Lemma investment_values_by_surplus_witness :
  exists rs,
    term_sweep script_config = Returns rs /\
    exists r, nth_error rs 14 = Some r /\ term r = 15%Z.
Proof.
  destruct script_sweep_returns as [rs H].
  exists rs. split; [exact H |].
  destruct (investment_values_by_surplus script_config rs 15%Z H ltac:(lia))
    as (r & Hr & Ht & _).
  exists r. split; [exact Hr | exact Ht].
Defined.

(** ** Further properties of the sweep *)

Section SweepFacts.

Lemma calculate_monthly_payment_unit_base (L years : R) :
  calculate_monthly_payment L 0 years = Raises ZeroDivisionError.
Proof.
  unfold calculate_monthly_payment, math_pow.
  replace (1 + 0 / 12) with 1 by lra.
  assert (E : Rpower 1 (- (12 * years)) = 1).
  { unfold Rpower. now rewrite ln_1, Rmult_0_r, exp_0. }
  destruct (Req_dec_T (- (12 * years)) 0) as [_ | _].
  - cbn [bind]. replace (1 - 1) with 0 by lra. now rewrite py_div_zero.
  - destruct (Req_dec_T 1 0); [lra |].
    destruct (Rlt_dec 0 1); [| lra].
    rewrite E, float_range_one. cbn [bind].
    replace (1 - 1) with 0 by lra. now rewrite py_div_zero.
Qed.

(** Every record of a finished sweep carries a term of 1..30. *)
Lemma term_sweep_terms (c : Config) (rs : list TermResult) (r : TermResult) :
  term_sweep c = Returns rs -> In r rs -> (1 <= term r <= 30)%Z.
Proof.
  intros H Hin.
  destruct (term_sweep_In c rs r H Hin) as (tc & i & _ & Hi & _ & He).
  apply term_body_returns in He. destruct He as (Ht & _). lia.
Qed.

(** The record of term 30 holds three zeros. *)
Lemma term_30_fields (c : Config) (rs : list TermResult) (r : TermResult) :
  term_sweep c = Returns rs -> In r rs -> term r = 30%Z ->
  savings r = 0 /\ investment_value_in_term r = 0 /\ investment_value r = 0.
Proof.
  intros H Hin Ht.
  destruct (term_sweep_In c rs r H Hin) as (tc & i & Hb & _ & _ & He).
  apply term_body_returns in He.
  destruct He as (Hterm & Hpay & Hint & Hcost & Hsav & Hlast & _).
  rewrite Ht in Hterm. rewrite <- Hterm in Hpay, Hint, Hlast.
  destruct (baseline_returns c tc Hb) as (p30 & Hp30 & Htc).
  rewrite Hp30 in Hpay. apply Returns_inj in Hpay.
  destruct (Hlast ltac:(lia)) as [Hin0 Hiv0].
  repeat split; try assumption.
  rewrite Hsav, Hcost, Hint, Htc, <- Hpay. ring.
Qed.

End SweepFacts.

(** X13: at an annual interest rate of 0 nothing is tabulated: the baseline
    payment already divides by zero, so the sweep and the
    inflation-adjusted table raise [ZeroDivisionError] before any record
    is appended. *)
Theorem term_sweep_zero_rate (c : Config) :
  annual_interest_rate c = 0 ->
  term_sweep c = Raises ZeroDivisionError /\
  inflation_adjusted_table c = Raises ZeroDivisionError.
Proof.
  intros H0.
  assert (Hs : term_sweep c = Raises ZeroDivisionError).
  { unfold term_sweep, baseline.
    now rewrite H0, calculate_monthly_payment_unit_base. }
  split; [assumption |].
  unfold inflation_adjusted_table. now rewrite Hs.
Qed.

Lemma term_sweep_zero_rate_witness :
  term_sweep (mkConfig 2500000 0 (4 / 10) (28 / 100) 200000) =
  Raises ZeroDivisionError.
Proof.
  apply (term_sweep_zero_rate (mkConfig 2500000 0 (4 / 10) (28 / 100) 200000)).
  reflexivity.
Defined.

(** X15: the fields of a record hang together as the loop computes them:
    the total interest is [monthly_payment * 12 * term] less the
    principal, the total cost is the principal plus the total interest,
    and the savings are the total cost of the 30-year record minus the
    record's own total cost. *)
Theorem record_costs_consistent (c : Config) (rs : list TermResult)
    (r r30 : TermResult) :
  term_sweep c = Returns rs -> In r rs -> In r30 rs -> term r30 = 30%Z ->
  total_interest r = monthly_payment r * 12 * IZR (term r) - loan_amount c /\
  total_cost r = loan_amount c + total_interest r /\
  savings r = total_cost r30 - total_cost r.
Proof.
  intros H Hin Hin30 Ht30.
  destruct (term_sweep_In c rs r H Hin) as (tc & i & Hb & _ & _ & He).
  destruct (term_sweep_In c rs r30 H Hin30) as (tc' & j & Hb' & _ & _ & He').
  rewrite Hb in Hb'. apply Returns_inj in Hb'. subst tc'.
  apply term_body_returns in He, He'.
  destruct He as (Ht & _ & Hint & Hcost & Hsav & _).
  destruct He' as (Ht' & Hp' & Hint' & Hcost' & _).
  rewrite Ht30 in Ht'. rewrite <- Ht' in Hp', Hint'.
  destruct (baseline_returns c tc Hb) as (p30 & Hp30 & Htc).
  rewrite Hp30 in Hp'. apply Returns_inj in Hp'.
  repeat split.
  - rewrite Hint, Ht. reflexivity.
  - exact Hcost.
  - rewrite Hsav, Hcost', Hint', Htc, <- Hp'. reflexivity.
Qed.

Lemma record_costs_consistent_witness :
  exists rs r,
    term_sweep script_config = Returns rs /\ In r rs /\
    savings r = total_cost r - total_cost r.
Proof.
  destruct script_sweep_returns as [rs H].
  destruct (term_sweep_nth script_config rs H) as (tc & _ & _ & Hnth).
  destruct (Hnth 29%nat ltac:(lia)) as (r & Hr & He).
  apply term_body_returns in He. destruct He as (Ht & _).
  exists rs, r. split; [exact H |].
  assert (Hin : In r rs) by (eapply nth_error_In; exact Hr).
  split; [exact Hin |].
  exact (proj2 (proj2 (record_costs_consistent script_config rs r r H Hin Hin Ht))).
Defined.

(** X17: with a non-negative reference salary every record keeps
    [0 <= investment_value_in_term <= investment_value], at every
    investment return rate: a payment above the salary is floored at 0,
    never carried as a shortfall. *)
Theorem investment_values_ordered (c : Config) (rs : list TermResult) (r : TermResult) :
  0 <= monthly_salary c ->
  term_sweep c = Returns rs -> In r rs ->
  0 <= investment_value_in_term r <= investment_value r.
Proof.
  intros Hs H Hin.
  destruct (term_sweep_In c rs r H Hin) as (tc & i & _ & Hi & _ & He).
  apply term_body_returns in He.
  destruct He as (_ & _ & _ & _ & _ & Hlast & Hneg & Hpos).
  set (t := (Z.of_nat i + 1)%Z) in *.
  destruct (Z_lt_le_dec t 30) as [Hlt | Hge].
  - assert (Hrem : 0 <= IZR (30 - t)) by (apply IZR_le; lia).
    destruct (Rlt_dec (monthly_salary c - monthly_payment r) 0) as [Hd | Hd].
    + destruct (Hneg Hlt Hd) as [Hin0 Hiv].
      pose proof (calculate_opportunity_cost_nonneg _ _ _ _ Hs Hrem Hiv). lra.
    + assert (Hd' : monthly_salary c - monthly_payment r >= 0) by lra.
      destruct (Hpos Hlt Hd') as (Hit & rest & Hrest & Hsum).
      pose proof (calculate_opportunity_cost_nonneg _ _ _ _ Hs Hrem Hrest).
      assert (Ht0 : 0 <= IZR t) by (apply IZR_le; unfold t; lia).
      assert (Hd0 : 0 <= monthly_salary c - monthly_payment r) by lra.
      pose proof (calculate_opportunity_cost_nonneg _ _ _ _ Hd0 Ht0 Hit).
      lra.
  - destruct (Hlast ltac:(lia)) as [-> ->]. lra.
Qed.

Lemma investment_values_ordered_witness :
  exists rs r,
    term_sweep script_config = Returns rs /\ In r rs /\
    0 <= investment_value_in_term r <= investment_value r.
Proof.
  destruct script_sweep_returns as [rs H].
  destruct (term_sweep_nth script_config rs H) as (tc & _ & _ & Hnth).
  destruct (Hnth 0%nat ltac:(lia)) as (r & Hr & _).
  assert (Hin : In r rs) by (eapply nth_error_In; exact Hr).
  exists rs, r. split; [exact H |]. split; [exact Hin |].
  apply (investment_values_ordered script_config rs r); [cbn; lra | exact H | exact Hin].
Defined.

(** ** The inflation-adjusted table *)

Section Adjusted.

Variable c : Config.

Lemma adjust_loop_returns (rs : list TermResult) :
  forall printed rows,
    adjust_loop c rs printed = Returns rows ->
    exists rows',
      rows = printed ++ rows' /\
      Forall2 (fun r row => adjust_body c r = Returns row) rs rows'.
Proof.
  induction rs as [| r rest IH]; intros printed rows H; cbn in H.
  - apply Returns_inj in H. subst rows. exists []. now rewrite app_nil_r.
  - destruct (adjust_body c r) as [row | e |] eqn:Hb; cbn in H; try discriminate.
    destruct (IH _ _ H) as (rows' & -> & HF).
    exists (row :: rows'). split.
    + now rewrite <- app_assoc.
    + now constructor.
Qed.

Lemma adjust_loop_complete (rs : list TermResult) :
  forall printed rows',
    Forall2 (fun r row => adjust_body c r = Returns row) rs rows' ->
    adjust_loop c rs printed = Returns (printed ++ rows').
Proof.
  induction rs as [| r rest IH]; intros printed rows' HF; inversion HF; subst; cbn.
  - now rewrite app_nil_r.
  - match goal with H : adjust_body _ _ = _ |- _ => rewrite H end.
    cbn. rewrite IH with (rows' := l') by assumption.
    now rewrite <- app_assoc.
Qed.

(** The fields of a printed row, read off the body. *)
Lemma adjust_body_returns (r : TermResult) (row : AdjustedRow) :
  adjust_body c r = Returns row ->
  row_term row = term r /\
  row_monthly_payment row = monthly_payment r /\
  inflation_adj_total_cost row =
  number_add (loan_amount c) (inflation_adj_total_interest row) /\
  as_number
    (calculate_inflation_adjusted_value
       (total_interest r) (IZR (term r) / 2) (annual_inflation_rate c)) =
  Returns (inflation_adj_total_interest row) /\
  as_number
    (calculate_inflation_adjusted_value (savings r) 30 (annual_inflation_rate c)) =
  Returns (inflation_adj_savings row) /\
  as_number
    (calculate_inflation_adjusted_value
       (investment_value_in_term r) 30 (annual_inflation_rate c)) =
  Returns (inflation_adj_investment_IT row) /\
  as_number
    (calculate_inflation_adjusted_value
       (investment_value r) 30 (annual_inflation_rate c)) =
  Returns (inflation_adj_investment row).
Proof.
  unfold adjust_body. rewrite py_div_returns by lra. cbn [bind]. intros H.
  destruct (as_number (calculate_inflation_adjusted_value (total_interest r) _ _))
    as [a | e |]; cbn [bind] in H; try discriminate.
  destruct (as_number (calculate_inflation_adjusted_value (savings r) _ _))
    as [b | e |]; cbn [bind] in H; try discriminate.
  destruct (as_number
              (calculate_inflation_adjusted_value (investment_value_in_term r) _ _))
    as [d | e |]; cbn [bind] in H; try discriminate.
  destruct (as_number (calculate_inflation_adjusted_value (investment_value r) _ _))
    as [f | e |]; cbn [bind] in H; try discriminate.
  apply Returns_inj in H. subst row. cbn. repeat split.
Qed.

Lemma inflation_adjusted_table_returns (rows : list AdjustedRow) :
  inflation_adjusted_table c = Returns rows ->
  exists rs,
    term_sweep c = Returns rs /\
    Forall2 (fun r row => adjust_body c r = Returns row) rs rows.
Proof.
  unfold inflation_adjusted_table. intros H.
  destruct (term_sweep c) as [rs | e |]; cbn [bind] in H; try discriminate.
  destruct (adjust_loop_returns _ _ _ H) as (rows' & -> & HF).
  now exists rs.
Qed.

Lemma Forall2_impl_In {A B : Type} (P Q : A -> B -> Prop) (l : list A) (l' : list B) :
  (forall a b, In a l -> P a b -> Q a b) ->
  Forall2 P l l' -> Forall2 Q l l'.
Proof.
  intros HPQ HF. induction HF as [| a b l l' Hab _ IH]; constructor.
  - apply HPQ; [now left | assumption].
  - apply IH. intros a' b' Hin. apply HPQ. now right.
Qed.

Lemma Forall2_In_r {A B : Type} (P : A -> B -> Prop) (l : list A) (l' : list B) (b : B) :
  Forall2 P l l' -> In b l' -> exists a, In a l /\ P a b.
Proof.
  induction 1 as [| a b' l l' Hab _ IH]; intros Hin; [contradiction |].
  destruct Hin as [-> | Hin].
  - exists a. split; [now left | assumption].
  - destruct (IH Hin) as (a' & Ha' & HP). exists a'. split; [now right | assumption].
Qed.

(** Over 30 years, a whole number, the power is never complex, so a
    discounted 0 is the float 0 whenever the call returns. *)
Lemma discount_of_zero_30 (rate : R) (n : number) :
  as_number (calculate_inflation_adjusted_value 0 30 rate) = Returns n ->
  n = Real 0.
Proof.
  unfold calculate_inflation_adjusted_value.
  assert (Hp : builtin_pow (1 + rate) 30 <> Complex).
  { unfold builtin_pow.
    destruct (Req_dec_T 30 0); [discriminate |].
    destruct (Req_dec_T (1 + rate) 0); [destruct (Rlt_dec 30 0); discriminate |].
    destruct (Rlt_dec 0 (1 + rate)).
    - unfold float_range.
      destruct (Rle_dec _ _); [discriminate |].
      destruct (Rle_dec _ _); discriminate.
    - rewrite (is_integral_IZR 30). unfold float_range.
      destruct (Rle_dec _ _); [discriminate |].
      destruct (Rle_dec _ _); discriminate. }
  destruct (builtin_pow (1 + rate) 30) as [p | e |]; cbn [bind as_number];
    [| discriminate | contradiction].
  unfold py_div. destruct (Req_dec_T p 0); cbn [as_number]; [discriminate |].
  intros H. apply Returns_inj in H. subst n. f_equal. unfold Rdiv. ring.
Qed.

End Adjusted.

Section ScriptTable.

Lemma script_discount_returns (v y : R) :
  0 <= y <= 30 ->
  exists w, calculate_inflation_adjusted_value v y (28 / 100) = Returns w.
Proof.
  intros Hy. eexists. apply calculate_inflation_adjusted_value_pos; [lra |].
  apply Rpower_moderate_in_range; lra.
Qed.

Lemma script_adjust_body_returns (r : TermResult) :
  (1 <= term r <= 30)%Z -> exists row, adjust_body script_config r = Returns row.
Proof.
  intros Ht.
  assert (H1 : 1 <= IZR (term r)) by (apply IZR_le; lia).
  assert (H30 : IZR (term r) <= 30) by (apply IZR_le; lia).
  unfold adjust_body. cbn [annual_inflation_rate script_config].
  rewrite py_div_returns by lra. cbn [bind].
  destruct (script_discount_returns (total_interest r) (IZR (term r) / 2)
              ltac:(lra)) as [a ->].
  destruct (script_discount_returns (savings r) 30 ltac:(lra)) as [b ->].
  destruct (script_discount_returns (investment_value_in_term r) 30 ltac:(lra))
    as [d ->].
  destruct (script_discount_returns (investment_value r) 30 ltac:(lra)) as [f ->].
  cbn [as_number bind]. eexists. reflexivity.
Qed.

(** With the inputs written in the script the adjusted table is
    produced. *)
Lemma script_table_returns :
  exists rows, inflation_adjusted_table script_config = Returns rows.
Proof.
  destruct script_sweep_returns as [rs Hs].
  assert (HF : exists rows,
             Forall2 (fun r row => adjust_body script_config r = Returns row) rs rows).
  { assert (Hall : Forall (fun r => (1 <= term r <= 30)%Z) rs).
    { apply Forall_forall. intros r Hin.
      exact (term_sweep_terms script_config rs r Hs Hin). }
    clear Hs. induction Hall as [| r rest Hr _ [rows IH]].
    - exists []. constructor.
    - destruct (script_adjust_body_returns r Hr) as [row Hrow].
      exists (row :: rows). now constructor. }
  destruct HF as [rows HF].
  exists rows. unfold inflation_adjusted_table. rewrite Hs. cbn [bind].
  now rewrite (adjust_loop_complete script_config rs [] rows HF).
Qed.

End ScriptTable.

(** X18: whenever the inflation-adjusted table is produced it has one row
    per record of the sweep, in the same order: 30 rows for terms 1..30,
    each with the record's term and its unadjusted monthly payment, and
    with an adjusted total cost that is the principal plus the adjusted
    total interest (complex when that is). *)
Theorem inflation_adjusted_table_rows (c : Config) (rows : list AdjustedRow) :
  inflation_adjusted_table c = Returns rows ->
  exists rs,
    term_sweep c = Returns rs /\
    length rows = 30%nat /\
    map row_term rows = range 1 31 /\
    Forall2
      (fun r row =>
         row_term row = term r /\
         row_monthly_payment row = monthly_payment r /\
         inflation_adj_total_cost row =
         number_add (loan_amount c) (inflation_adj_total_interest row))
      rs rows.
Proof.
  intros H.
  destruct (inflation_adjusted_table_returns c rows H) as (rs & Hs & HF).
  assert (HF' : Forall2
                  (fun r row =>
                     row_term row = term r /\
                     row_monthly_payment row = monthly_payment r /\
                     inflation_adj_total_cost row =
                     number_add (loan_amount c) (inflation_adj_total_interest row))
                  rs rows).
  { eapply Forall2_impl_In; [| exact HF].
    intros r row _ Hb. apply adjust_body_returns in Hb.
    destruct Hb as (H1 & H2 & H3 & _). now repeat split. }
  destruct (term_sweep_returns c rs Hs) as (tc & _ & HFs).
  pose proof (Forall2_emitted_terms c tc _ _ HFs) as Hterms.
  exists rs. repeat split; try assumption.
  - apply Forall2_length in HF. rewrite <- HF.
    now destruct (term_sweep_nth c rs Hs) as (_ & _ & Hlen & _).
  - rewrite <- Hterms. clear - HF'.
    induction HF' as [| r row rs rows (Ht & _) _ IH]; cbn; [reflexivity |].
    now rewrite Ht, IH.
Qed.

Lemma inflation_adjusted_table_rows_witness :
  exists rows,
    inflation_adjusted_table script_config = Returns rows /\
    length rows = 30%nat /\ map row_term rows = range 1 31.
Proof.
  destruct script_table_returns as [rows H].
  exists rows. split; [exact H |].
  destruct (inflation_adjusted_table_rows script_config rows H)
    as (rs & _ & Hlen & Hmap & _).
  split; [exact Hlen | exact Hmap].
Defined.

(** X19: in the row printed for term 30 the adjusted savings and both
    adjusted investment values are the float 0, whenever the table is
    produced, at every inflation rate. *)
Theorem adjusted_term_30_row_is_zero (c : Config) (rows : list AdjustedRow)
    (row : AdjustedRow) :
  inflation_adjusted_table c = Returns rows ->
  In row rows -> row_term row = 30%Z ->
  inflation_adj_savings row = Real 0 /\
  inflation_adj_investment_IT row = Real 0 /\
  inflation_adj_investment row = Real 0.
Proof.
  intros H Hin Ht.
  destruct (inflation_adjusted_table_returns c rows H) as (rs & Hs & HF).
  destruct (Forall2_In_r _ _ _ _ HF Hin) as (r & Hr & Hb).
  apply adjust_body_returns in Hb.
  destruct Hb as (Hterm & _ & _ & _ & Hsav & Hit & Hiv).
  rewrite Ht in Hterm.
  destruct (term_30_fields c rs r Hs Hr (eq_sym Hterm)) as (E1 & E2 & E3).
  rewrite E1 in Hsav. rewrite E2 in Hit. rewrite E3 in Hiv.
  repeat split; eapply discount_of_zero_30; eassumption.
Qed.

Lemma adjusted_term_30_row_is_zero_witness :
  exists rows,
    inflation_adjusted_table script_config = Returns rows /\
    forall row, In row rows -> row_term row = 30%Z ->
      inflation_adj_savings row = Real 0 /\
      inflation_adj_investment_IT row = Real 0 /\
      inflation_adj_investment row = Real 0.
Proof.
  destruct script_table_returns as [rows H].
  exists rows. split; [exact H |].
  intros row Hin Ht.
  exact (adjusted_term_30_row_is_zero script_config rows row H Hin Ht).
Defined.
